(** * telegraph-rs: the HTML-to-node converter ([html_to_node]) and the
    serde (de)serialization of [types::Node].

    Sources: src/src/lib.rs ([html_to_node], [html_to_node_inner]),
    src/src/types.rs ([Node], [NodeElement]).

    The libxml tree that [Parser::default_html().parse_string] builds is an
    input of the development: [Document] and [XmlNode] expose exactly the
    accessors the converter calls (get_root_element, get_first_element_child,
    get_type, get_name, get_content, get_attributes, get_child_nodes). *)

From stdpp Require Import base gmap list strings.
From Stdlib Require Import String Ascii.

Open Scope string_scope.
Set Warnings "-register-all".

(** ** The libxml side *)

(** [libxml::tree::NodeType], as returned by [Node::get_type]. *)
Inductive NodeType :=
| ElementNode | AttributeNode | TextNode | CDataSectionNode | EntityRefNode
| EntityNode | PiNode | CommentNode | DocumentNode | DocumentTypeNode
| DocumentFragNode | NotationNode | HtmlDocumentNode | DTDNode.

(** A [libxml::tree::Node]: its type, name, text content, property list (in
    the order libxml keeps it, i.e. source order) and child nodes. *)
Inductive XmlNode := mkXmlNode {
  x_type : option NodeType;
  x_name : string;
  x_content : string;
  x_props : list (string * string);
  x_children : list XmlNode
}.

(** A parsed [libxml::tree::Document]: the children of the document node. *)
Record Document := mkDocument { doc_children : list XmlNode }.

Definition is_element_node (n : XmlNode) : bool :=
  match x_type n with Some ElementNode => true | _ => false end.

Fixpoint first_element (l : list XmlNode) : option XmlNode :=
  match l with
  | [] => None
  | n :: l' => if is_element_node n then Some n else first_element l'
  end.

(** [Document::get_root_element] (xmlDocGetRootElement: the first element
    child of the document node). *)
Definition get_root_element (d : Document) : option XmlNode :=
  first_element (doc_children d).

(** [Node::get_first_element_child]. *)
Definition get_first_element_child (n : XmlNode) : option XmlNode :=
  first_element (x_children n).

(** [Node::get_property] (xmlGetProp: value of the first property named [k]). *)
Fixpoint get_property (props : list (string * string)) (k : string) : option string :=
  match props with
  | [] => None
  | (k', v) :: props' => if String.eqb k k' then Some v else get_property props' k
  end.

(** [Node::get_attributes] / [get_properties]: a fresh [HashMap] filled by
    walking the property list and inserting [name -> get_property(name)]. *)
Definition get_attributes (n : XmlNode) : gmap string string :=
  foldl (fun m kv =>
           match get_property (x_props n) kv.1 with
           | Some v => <[kv.1 := v]> m
           | None => m
           end) ∅ (x_props n).

(** ** [types::Node] *)

(** [enum Node { Text(String), NodeElement(NodeElement) }]; the fields of the
    struct [NodeElement] (tag, attrs, children) are the fields of the
    constructor [NodeElement]. [attrs : Option<HashMap<String, Option<String>>>]
    holds the map's contents; its iteration order is [hm_iter] below. *)
Inductive Node :=
| Text (s : string)
| NodeElement (tag : string) (attrs : option (gmap string (option string)))
    (children : option (list Node)).

(** [Iterator<Item = Option<T>>::collect::<Option<Vec<T>>>()]. *)
Fixpoint collect_opt {A} (l : list (option A)) : option (list A) :=
  match l with
  | [] => Some []
  | None :: _ => None
  | Some a :: l' =>
      match collect_opt l' with Some r => Some (a :: r) | None => None end
  end.

(** [html_to_node_inner]. At lib.rs:474 [Some(attrs)] stores the
    [HashMap<String, String>] of [get_attributes] in the field [attrs] of
    type [Option<HashMap<String, Option<String>>>] (types.rs:98): as written
    the line does not type-check. The model takes the conversion that keeps
    every value, [Some] on each; no other information about the attribute
    reaches this point, since [get_attributes] holds a [String] for each. *)
Fixpoint html_to_node_inner (node : XmlNode) : option Node :=
  match node with
  | mkXmlNode ty name content props childs =>
      match ty with
      | Some TextNode => Some (Text content)
      | Some ElementNode =>
          Some (NodeElement name
            (let attrs := get_attributes node in
             if decide (attrs = ∅) then None else Some (Some <$> attrs))
            (match childs with
             | [] => None
             | _ => collect_opt (List.map html_to_node_inner childs)
             end))
      | _ => None
      end
  end.

(** The body of [html_to_node] up to the [Vec<Option<Node>>] it serializes;
    [None] is a panic of one of the three [unwrap]s ([parse_string] failing,
    no root element, no element child of the root). *)
Definition html_to_node_nodes (parsed : option Document) : option (list (option Node)) :=
  match parsed with
  | None => None
  | Some document =>
      match get_root_element document with
      | None => None
      | Some root =>
          match get_first_element_child root with
          | None => None
          | Some node => Some (List.map html_to_node_inner (x_children node))
          end
      end
  end.

(** ** serde: the JSON data model *)

(** The values serde_json writes and reads (only the shapes used here);
    an object keeps its entries in the order they are written or read. *)
Inductive json :=
| JNull
| JString (s : string)
| JArray (l : list json)
| JObject (l : list (string * json)).

(** The hasher of a [std::collections::HashMap]: [RandomState::new()]
    gives every map its own SipHash keys (random per thread, the first key
    incremented at each call), and the keys fix the slot every key goes to.
    A hasher is represented by that slot function; entries are listed in
    slot order, a tie following the order of the [gmap]. hashbrown lists
    colliding keys in insertion order instead, an order that some other
    slot function gives too: every order of a map's keys is the iteration
    order under some hasher. *)
Definition RandomState := string -> nat.

(** The hashers of the [attrs] maps of a tree: each map is built by its own
    [HashMap::new()] in [get_attributes], so every element has its own
    hasher, named here by the element's position (the child indices from
    the top of the serialized [Vec]). *)
Definition Hashers := list nat -> RandomState.

Fixpoint bucket_insert (rs : RandomState) (kv : string * option string)
    (l : list (string * option string)) : list (string * option string) :=
  match l with
  | [] => [kv]
  | kv' :: l' =>
      if Nat.ltb (rs kv.1) (rs kv'.1) then kv :: l else kv' :: bucket_insert rs kv l'
  end.

(** [HashMap::iter]: the entries in slot order of its hasher. *)
Definition hm_iter (rs : RandomState) (m : gmap string (option string))
    : list (string * option string) :=
  foldl (fun acc kv => bucket_insert rs kv acc) [] (map_to_list m).

Definition ser_opt_string (v : option string) : json :=
  match v with None => JNull | Some s => JString s end.

(** The elements of a sequence, each written knowing its index. *)
Fixpoint enum_from {A} (f : nat -> A -> json) (i : nat) (l : list A) : list json :=
  match l with
  | [] => []
  | x :: l' => f i x :: enum_from f (S i) l'
  end.

(** [#[derive(Serialize)] #[serde(untagged)] enum Node]: a [Text] is its
    string, a [NodeElement] an object with [tag], then [attrs] and
    [children], each skipped when [None] ([skip_serializing_if]); the
    [attrs] map is iterated under the hasher of the element at [pos]. *)
Fixpoint ser_node (hs : Hashers) (pos : list nat) (n : Node) : json :=
  match n with
  | Text s => JString s
  | NodeElement tag attrs children =>
      JObject ([("tag", JString tag)]
        ++ match attrs with
           | None => []
           | Some m => [("attrs", JObject (List.map (fun kv => (kv.1, ser_opt_string kv.2))
                                                   (hm_iter (hs pos) m)))]
           end
        ++ match children with
           | None => []
           | Some l => [("children", JArray (enum_from (fun i c => ser_node hs (pos ++ [i]) c) 0 l))]
           end)
  end.

(** [Option<Node>]: [None] is [null]. *)
Definition ser_opt_node (hs : Hashers) (pos : list nat) (o : option Node) : json :=
  match o with None => JNull | Some n => ser_node hs pos n end.

(** ** serde_json's compact writer ([serde_json::to_string]) *)

Definition chr (n : nat) : string := String (ascii_of_nat n) EmptyString.

Definition hex_digit (n : nat) : string :=
  chr (if Nat.ltb n 10 then 48 + n else 87 + n).

(** serde_json's ESCAPE table: the double quote and the backslash are
    preceded by a backslash, bytes 8, 9, 10, 12, 13 get the short escapes
    b t n f r, every other control byte is written u00XX (lower-case hex)
    after a backslash, and the rest is kept verbatim. *)
Definition escape_char (c : ascii) : string :=
  let n := nat_of_ascii c in
  if Nat.eqb n 34 then chr 92 ++ chr 34
  else if Nat.eqb n 92 then chr 92 ++ chr 92
  else if Nat.eqb n 8 then chr 92 ++ "b"
  else if Nat.eqb n 9 then chr 92 ++ "t"
  else if Nat.eqb n 10 then chr 92 ++ "n"
  else if Nat.eqb n 12 then chr 92 ++ "f"
  else if Nat.eqb n 13 then chr 92 ++ "r"
  else if Nat.ltb n 32 then chr 92 ++ "u00" ++ hex_digit (n / 16) ++ hex_digit (n mod 16)
  else String c EmptyString.

Fixpoint escape_str (s : string) : string :=
  match s with
  | EmptyString => EmptyString
  | String c s' => escape_char c ++ escape_str s'
  end.

Definition quote (s : string) : string := chr 34 ++ escape_str s ++ chr 34.

Fixpoint json_to_string (j : json) : string :=
  match j with
  | JNull => "null"
  | JString s => quote s
  | JArray l => "[" ++ String.concat "," (List.map json_to_string l) ++ "]"
  | JObject l =>
      "{" ++ String.concat "," (List.map (fun kv => quote kv.1 ++ ":" ++ json_to_string kv.2) l)
      ++ "}"
  end.

(** ** [html_to_node] *)

(** What a call returns: the JSON string, or a panic of an [unwrap]. *)
Inductive Outcome := Returns (s : string) | Panics.

(** [html_to_node], given the result of [parse_string] ([None] for [Err]).
    [serde_json::to_string(&nodes).unwrap()] cannot fail on these values. *)
Definition html_to_node (hs : Hashers) (parsed : option Document) : Outcome :=
  match html_to_node_nodes parsed with
  | None => Panics
  | Some nodes => Returns (json_to_string (JArray (enum_from (fun i o => ser_opt_node hs [i] o) 0 nodes)))
  end.

(** ** serde: deserialization of [Node] *)

(** [Option<String>]: [null] is [None]. *)
Definition de_opt_string (j : json) : option (option string) :=
  match j with JNull => Some None | JString s => Some (Some s) | _ => None end.

(** [HashMap<String, Option<String>>]: the entries are inserted in order, a
    later duplicate key replacing an earlier one. *)
Fixpoint de_map_entries (m : gmap string (option string)) (l : list (string * json))
    : option (gmap string (option string)) :=
  match l with
  | [] => Some m
  | (k, v) :: l' =>
      match de_opt_string v with
      | Some v' => de_map_entries (<[k := v']> m) l'
      | None => None
      end
  end.

(** [Option<HashMap<..>>]. *)
Definition de_attrs (j : json) : option (option (gmap string (option string))) :=
  match j with
  | JNull => Some None
  | JObject l => match de_map_entries ∅ l with Some m => Some (Some m) | None => None end
  | _ => None
  end.

(** [#[derive(Deserialize)] #[serde(untagged)] enum Node]: the variants are
    tried in order. [Text(String)] takes a string. [NodeElement] takes an
    object (the derived struct visitor: [tag] is required, [attrs] and
    [children] default to [None], a repeated field is an error, unknown
    fields are ignored) or a sequence of exactly its three fields. *)
Fixpoint de_node (j : json) : option Node :=
  let de_children (v : json) : option (option (list Node)) :=
    match v with
    | JNull => Some None
    | JArray l => match collect_opt (List.map de_node l) with
                  | Some c => Some (Some c) | None => None end
    | _ => None
    end in
  match j with
  | JString s => Some (Text s)
  | JObject fields =>
      let fix visit_map (fs : list (string * json)) (tag : option string)
          (attrs : option (option (gmap string (option string))))
          (children : option (option (list Node))) : option Node :=
        match fs with
        | [] =>
            match tag with
            | None => None
            | Some t => Some (NodeElement t (default None attrs) (default None children))
            end
        | (k, v) :: fs' =>
            if String.eqb k "tag" then
              match tag, v with
              | None, JString t => visit_map fs' (Some t) attrs children
              | _, _ => None
              end
            else if String.eqb k "attrs" then
              match attrs, de_attrs v with
              | None, Some a => visit_map fs' tag (Some a) children
              | _, _ => None
              end
            else if String.eqb k "children" then
              match children, de_children v with
              | None, Some c => visit_map fs' tag attrs (Some c)
              | _, _ => None
              end
            else visit_map fs' tag attrs children
        end in
      visit_map fields None None None
  | JArray [JString t; a; c] =>
      match de_attrs a, de_children c with
      | Some a', Some c' => Some (NodeElement t a' c')
      | _, _ => None
      end
  | _ => None
  end.

(** ** The trees libxml2's HTML parser builds *)

(** libxml2 gives an HTML document a default DTD node, then the [html]
    element; content outside the head goes under an implied [body]. *)
Definition elem (name : string) (props : list (string * string)) (kids : list XmlNode) : XmlNode :=
  mkXmlNode (Some ElementNode) name EmptyString props kids.

Definition text (s : string) : XmlNode :=
  mkXmlNode (Some TextNode) "text" s [] [].

Definition comment (s : string) : XmlNode :=
  mkXmlNode (Some CommentNode) "comment" s [] [].

Definition dtd : XmlNode := mkXmlNode (Some DTDNode) "html" EmptyString [] [].

Definition html_body (kids : list XmlNode) : Document :=
  mkDocument [dtd; elem "html" [] [elem "body" [] kids]].

(** The tree for [<p>Hello, world</p>]. *)
Definition doc_p_hello : Document := html_body [elem "p" [] [text "Hello, world"]].

(** The tree for [<div><!-- comment --><span>x</span></div>]. *)
Definition doc_div_comment : Document :=
  html_body [elem "div" [] [comment " comment "; elem "span" [] [text "x"]]].

(** The tree for [<p>a</p><!--c--><p>b</p>]. *)
Definition doc_p_comment_p : Document :=
  html_body [elem "p" [] [text "a"]; comment "c"; elem "p" [] [text "b"]].

(** The tree for [<input disabled>], the value of the attribute being the
    string libxml stores for it ([v]). *)
Definition doc_input_disabled (v : string) : Document :=
  html_body [elem "input" [("disabled", v)] []].

(** A document whose root element has no element child (libxml2 builds it
    for [<html></html>]: no [body] is implied without content). *)
Definition doc_html_empty : Document := mkDocument [dtd; elem "html" [] []].

(** The results [parse_string("")] can have: libxml2 refuses an empty
    buffer (no document), and a document built from no markup has no root
    element. *)
Definition parse_empty_results : list (option Document) := [None; Some (mkDocument [dtd])].

(** Writing JSON literals: every single quote of [s] becomes a double quote. *)
Fixpoint sq (s : string) : string :=
  match s with
  | EmptyString => EmptyString
  | String c s' => String (if Ascii.eqb c "'"%char then ascii_of_nat 34 else c) (sq s')
  end.

(** Two hashers, and hashers for a whole tree: one for every map, or the
    first for the map of the first top-level element and the second for
    every other map. *)
Definition rs_href_first : RandomState := fun k => if String.eqb k "href" then 0 else 1.
Definition rs_src_first : RandomState := fun k => if String.eqb k "src" then 0 else 1.
Definition hs_all (rs : RandomState) : Hashers := fun _ => rs.
Definition hs_first_differs (rs1 rs2 : RandomState) : Hashers :=
  fun pos => match pos with [0] => rs1 | _ => rs2 end.

(** Two JSON values that differ at most in the order of the entries of
    objects whose values are all strings or [null]: in a written [Node]
    tree, the [attrs] objects. *)
Definition flat_value (j : json) : bool :=
  match j with JNull | JString _ => true | _ => false end.

Inductive same_upto_attrs_order : json -> json -> Prop :=
| sa_null : same_upto_attrs_order JNull JNull
| sa_string s : same_upto_attrs_order (JString s) (JString s)
| sa_array l1 l2 :
    Forall2 same_upto_attrs_order l1 l2 -> same_upto_attrs_order (JArray l1) (JArray l2)
| sa_object l1 l2 :
    Forall2 (fun e1 e2 => e1.1 = e2.1 /\ same_upto_attrs_order e1.2 e2.2) l1 l2 ->
    same_upto_attrs_order (JObject l1) (JObject l2)
| sa_flat_perm l1 l2 :
    Forall (fun e => flat_value e.2 = true) l1 -> l1 ≡ₚ l2 ->
    same_upto_attrs_order (JObject l1) (JObject l2).

(** ** Properties of the output *)

Definition nonempty {A} (l : list A) : bool := match l with [] => false | _ => true end.

(** A node written by [ser_node] with no empty [attrs] object and no empty
    [children] array, also in its descendants. *)
Fixpoint elem_json_ok (j : json) : bool :=
  match j with
  | JNull | JString _ => true
  | JArray _ => false
  | JObject fields =>
      forallb (fun kv =>
        if String.eqb kv.1 "attrs" then
          match kv.2 with JObject l => nonempty l | _ => false end
        else if String.eqb kv.1 "children" then
          match kv.2 with JArray l => nonempty l && forallb elem_json_ok l | _ => false end
        else true) fields
  end.

Definition json_has_key (k : string) (j : json) : bool :=
  match j with
  | JObject fields => existsb (fun kv => String.eqb kv.1 k) fields
  | _ => false
  end.

(** ** Induction over the nested trees *)

Section NodeInduction.
Variable P : Node -> Prop.
Hypothesis HText : forall s, P (Text s).
Hypothesis HElem : forall tag attrs children,
  match children with None => True | Some l => Forall P l end ->
  P (NodeElement tag attrs children).

Fixpoint Node_ind' (n : Node) : P n :=
  match n with
  | Text s => HText s
  | NodeElement tag attrs children =>
      HElem tag attrs children
        (match children as c
               return match c with None => True | Some l => Forall P l end with
         | None => I
         | Some l =>
             (fix all (l : list Node) : Forall P l :=
                match l with
                | [] => @List.Forall_nil _ P
                | x :: l' => @List.Forall_cons _ P x l' (Node_ind' x) (all l')
                end) l
         end)
  end.
End NodeInduction.

Section XmlNodeInduction.
Variable P : XmlNode -> Prop.
Hypothesis HNode : forall ty name content props kids,
  Forall P kids -> P (mkXmlNode ty name content props kids).

Fixpoint XmlNode_ind' (x : XmlNode) : P x :=
  match x with
  | mkXmlNode ty name content props kids =>
      HNode ty name content props kids
        ((fix all (l : list XmlNode) : Forall P l :=
            match l with
            | [] => @List.Forall_nil _ P
            | y :: l' => @List.Forall_cons _ P y l' (XmlNode_ind' y) (all l')
            end) kids)
  end.
End XmlNodeInduction.

(** ** The HTTP API glue: error.rs, types.rs and the requests of lib.rs *)

(** [reqwest::Error], as far as the crate meets it: sending the request
    fails, or the body does not decode into the expected type. *)
Inductive reqwest_error := SendFailed | DecodeFailed.

(** [error::Error]. *)
Inductive Error :=
| ReqwestError (e : reqwest_error)
| ApiError (msg : string)
| IoError.

(** [Result<T, Error>]. *)
Inductive Result (A : Type) := Ok (a : A) | Err (e : Error).
Arguments Ok {A} a.
Arguments Err {A} e.

(** A run that may stop on a panic (an [unwrap] of [None]). *)
Inductive Exec (A : Type) := Finished (a : A) | Panicked.
Arguments Finished {A} a.
Arguments Panicked {A}.

(** A JSON value received from the API ([serde_json::Value]; the API only
    sends integral numbers). *)
Inductive value :=
| VNull
| VBool (b : bool)
| VNumber (z : Z)
| VString (s : string)
| VArray (l : list value)
| VObject (l : list (string * value)).

(** The derived struct visitor over a map: a field given twice is an
    error ([None]), a missing field is absent ([Some None]); keys that name
    no field are skipped. *)
Definition get_field (k : string) (fs : list (string * value)) : option (option value) :=
  match List.filter (fun kv => String.eqb kv.1 k) fs with
  | [] => Some None
  | [kv] => Some (Some kv.2)
  | _ => None
  end.

Definition de_string (v : value) : option string :=
  match v with VString s => Some s | _ => None end.

Definition de_bool (v : value) : option bool :=
  match v with VBool b => Some b | _ => None end.

(** [i32]: an integer in range. *)
Definition de_i32 (v : value) : option Z :=
  match v with
  | VNumber z => if (-2147483648 <=? z)%Z && (z <? 2147483648)%Z then Some z else None
  | _ => None
  end.

(** [Option<T>]: [null] is [None]. *)
Definition de_opt_value {A} (de : value -> option A) (v : value) : option (option A) :=
  match v with VNull => Some None | _ => match de v with Some a => Some (Some a) | None => None end end.

(** A field of type [Option<T>]: a missing field is [None]. *)
Definition de_opt_field {A} (de : value -> option A) (f : option (option value)) : option (option A) :=
  match f with
  | None => None
  | Some None => Some None
  | Some (Some v) => de_opt_value de v
  end.

(** A required field (of a type that is not an [Option]). *)
Definition de_req_field {A} (de : value -> option A) (f : option (option value)) : option A :=
  match f with Some (Some v) => de v | _ => None end.

(** [types::Account]. *)
Record Account := mkAccount {
  acc_short_name : option string;
  acc_author_name : option string;
  acc_author_url : option string;
  acc_access_token : option string;
  acc_auth_url : option string;
  acc_page_count : option Z
}.

(** [#[derive(Deserialize)] Account]: from a map, or from a sequence of
    exactly its six fields. *)
Definition de_account (v : value) : option Account :=
  match v with
  | VObject fs =>
      sn ← de_opt_field de_string (get_field "short_name" fs);
      an ← de_opt_field de_string (get_field "author_name" fs);
      au ← de_opt_field de_string (get_field "author_url" fs);
      tok ← de_opt_field de_string (get_field "access_token" fs);
      auth ← de_opt_field de_string (get_field "auth_url" fs);
      pc ← de_opt_field de_i32 (get_field "page_count" fs);
      Some (mkAccount sn an au tok auth pc)
  | VArray [a; b; c; d; e; f] =>
      sn ← de_opt_value de_string a; an ← de_opt_value de_string b;
      au ← de_opt_value de_string c; tok ← de_opt_value de_string d;
      auth ← de_opt_value de_string e; pc ← de_opt_value de_i32 f;
      Some (mkAccount sn an au tok auth pc)
  | _ => None
  end.

(** [error::ApiResult<T>]. *)
Inductive ApiResult (T : Type) := ApiOk (result : T) | ApiErr (ok : bool) (error : string).
Arguments ApiOk {T} result.
Arguments ApiErr {T} ok error.

(** [#[derive(Deserialize)] #[serde(untagged)] ApiResult<T>]: the variant
    [Ok { result }] is tried first, then [Err { ok, error }]; a struct
    variant of an untagged enum reads a map only (unknown keys skipped).
    The result types of the crate are structs, so a missing [result] is an
    error. *)
Definition de_api_result {T} (de : value -> option T) (v : value) : option (ApiResult T) :=
  let ok_variant :=
    match v with
    | VObject fs => r ← de_req_field de (get_field "result" fs); Some (ApiOk r)
    | _ => None
    end in
  match ok_variant with
  | Some r => Some r
  | None =>
      match v with
      | VObject fs =>
          b ← de_req_field de_bool (get_field "ok" fs);
          e ← de_req_field de_string (get_field "error" fs);
          Some (ApiErr b e)
      | _ => None
      end
  end.

(** [impl Into<Result<T, Error>> for ApiResult<T>]. *)
Definition api_into {T} (r : ApiResult T) : Result T :=
  match r with
  | ApiOk v => Ok v
  | ApiErr _ e => Err (ApiError e)
  end.

(** What the server answers to a request. *)
Inductive Response := SendError | NotJson | Json (v : value).

(** [response.json::<ApiResult<T>>().await?.into()] after [send().await?]:
    reqwest errors are turned into [Error::ReqwestError] by [From]. *)
Definition api_call {T} (de : value -> option T) (resp : Response) : Result T :=
  match resp with
  | SendError => Err (ReqwestError SendFailed)
  | NotJson => Err (ReqwestError DecodeFailed)
  | Json v =>
      match de_api_result de v with
      | None => Err (ReqwestError DecodeFailed)
      | Some r => api_into r
      end
  end.

(** The query of a request: from an array (ordered) or from a [HashMap]
    (its order is the hash order, left unspecified). *)
Inductive Query := QList (l : list (string * string)) | QMap (m : gmap string string).

Record Request := mkRequest { req_url : string; req_query : Query }.

(** The server, as a function from the request sent to its answer. *)
Definition Network := Request -> Response.

(** [reqwest::Client]: the default one ([Client::new()] or [default()]), or
    one the caller built and passed in. *)
Inductive Client := DefaultClient | CustomClient (id : nat).

(** [AccountBuilder] of lib.rs. *)
Record AccountBuilder := mkAccountBuilder {
  b_access_token : option string;
  b_short_name : string;
  b_author_name : option string;
  b_author_url : option string;
  b_client : Client
}.

(** [Telegraph] of lib.rs. *)
Record Telegraph := mkTelegraph {
  t_client : Client;
  t_access_token : string;
  t_short_name : string;
  t_author_name : string;
  t_author_url : option string
}.

(** [Telegraph::new] / [AccountBuilder::new]. *)
Definition builder_new (short_name : string) : AccountBuilder :=
  mkAccountBuilder None short_name None None DefaultClient.

Definition builder_access_token (b : AccountBuilder) (t : string) : AccountBuilder :=
  mkAccountBuilder (Some t) (b_short_name b) (b_author_name b) (b_author_url b) (b_client b).

Definition builder_author_name (b : AccountBuilder) (a : string) : AccountBuilder :=
  mkAccountBuilder (b_access_token b) (b_short_name b) (Some a) (b_author_url b) (b_client b).

Definition builder_client (b : AccountBuilder) (c : Client) : AccountBuilder :=
  mkAccountBuilder (b_access_token b) (b_short_name b) (b_author_name b) (b_author_url b) c.

(** The [HashMap] of query parameters of [Telegraph::create_account]. *)
Definition create_account_params (short_name : string) (author_name author_url : option string)
    : gmap string string :=
  let params := <["short_name" := short_name]> ∅ in
  let params := match author_name with Some a => <["author_name" := a]> params | None => params end in
  match author_url with Some u => <["author_url" := u]> params | None => params end.

(** [Telegraph::create_account]. *)
Definition create_account (net : Network) (short_name : string)
    (author_name author_url : option string) : Result Account :=
  api_call de_account
    (net (mkRequest "https://api.telegra.ph/createAccount"
            (QMap (create_account_params short_name author_name author_url)))).

(** [AccountBuilder::create]. *)
Definition builder_create (net : Network) (b : AccountBuilder) : Exec (Result Telegraph) :=
  let finish (tok : string) :=
    Finished (Ok (mkTelegraph (b_client b) tok (b_short_name b)
                    (default (b_short_name b) (b_author_name b)) (b_author_url b))) in
  match b_access_token b with
  | Some tok => finish tok
  | None =>
      match create_account net (b_short_name b) (b_author_name b) (b_author_url b) with
      | Err e => Finished (Err e)
      | Ok account =>
          match acc_access_token account with
          | Some tok => finish tok
          | None => Panicked
          end
      end
  end.

(** The request [AccountBuilder::edit] sends. *)
Definition edit_request (b : AccountBuilder) (tok author_name : string) : Request :=
  mkRequest "https://api.telegra.ph/editAccountInfo"
    (QList [("access_token", tok); ("short_name", b_short_name b);
            ("author_name", author_name); ("author_url", default EmptyString (b_author_url b))]).

(** [AccountBuilder::edit]: the query unwraps the token and the author
    name before anything is sent. *)
Definition builder_edit (net : Network) (b : AccountBuilder) : Exec (Result Telegraph) :=
  match b_access_token b, b_author_name b with
  | Some tok, Some an =>
      match api_call de_account (net (edit_request b tok an)) with
      | Err e => Finished (Err e)
      | Ok json =>
          match acc_short_name json with
          | None => Panicked
          | Some sn =>
              match match acc_author_name json with
                    | Some a => Some a
                    | None => acc_short_name json
                    end with
              | None => Panicked
              | Some an' =>
                  Finished (Ok (mkTelegraph DefaultClient tok sn an' (acc_author_url json)))
              end
          end
      end
  | _, _ => Panicked
  end.

(** [Telegraph::edit_account_info]. *)
Definition edit_account_info (t : Telegraph) : AccountBuilder :=
  mkAccountBuilder (Some (t_access_token t)) (t_short_name t) (Some (t_author_name t))
    (t_author_url t) (t_client t).

(** The request [Telegraph::revoke_access_token] sends. *)
Definition revoke_request (t : Telegraph) : Request :=
  mkRequest "https://api.telegra.ph/revokeAccessToken" (QList [("access_token", t_access_token t)]).

(** [Telegraph::revoke_access_token]: the updated [self] and the result. *)
Definition revoke_access_token (net : Network) (t : Telegraph) : Exec (Telegraph * Result Account) :=
  let json := api_call de_account (net (revoke_request t)) in
  match json with
  | Ok acc =>
      match acc_access_token acc with
      | Some tok =>
          Finished (mkTelegraph (t_client t) tok (t_short_name t) (t_author_name t) (t_author_url t), json)
      | None => Panicked
      end
  | Err _ => Finished (t, json)
  end.

(** The [HashMap] of [Telegraph::get_views]:
    [["year", "month", "day", "hour"].iter().zip(time).collect()]. *)
Definition get_views_params (time : list Z) : gmap string Z :=
  foldl (fun m kv => <[kv.1 := kv.2]> m) ∅ (zip ["year"; "month"; "day"; "hour"] time).

(** [types::ImageInfo]. *)
Record ImageInfo := mkImageInfo { src : string }.

(** [types::UploadResult]. *)
Inductive UploadResult := UploadError (error : string) | Source (v : list ImageInfo).

(** [#[derive(Deserialize)] ImageInfo]. *)
Definition de_image_info (v : value) : option ImageInfo :=
  match v with
  | VObject fs => s ← de_req_field de_string (get_field "src" fs); Some (mkImageInfo s)
  | VArray [x] => s ← de_string x; Some (mkImageInfo s)
  | _ => None
  end.

(** [#[derive(Deserialize)] #[serde(untagged)] UploadResult]: [Error { error }]
    is tried first, a struct variant reading a map only, then
    [Source(Vec<ImageInfo>)]. *)
Definition de_upload_result (v : value) : option UploadResult :=
  match match v with
        | VObject fs => e ← de_req_field de_string (get_field "error" fs); Some (UploadError e)
        | _ => None
        end with
  | Some r => Some r
  | None =>
      match v with
      | VArray l => l' ← collect_opt (List.map de_image_info l); Some (Source l')
      | _ => None
      end
  end.

(** The end of [Telegraph::upload_with]: [body] is the response parsed as
    JSON ([None] when it is not JSON), [raw] its lossy text and [serde_msg]
    the text of serde_json's error. *)
Definition upload_outcome (serde_msg raw : string) (body : option value) : Result (list ImageInfo) :=
  match body ≫= de_upload_result with
  | Some (UploadError e) => Err (ApiError e)
  | Some (Source v) => Ok v
  | None => Err (ApiError (serde_msg ++ ": " ++ raw))
  end.

(** The end of [blocking::Telegraph::upload]:
    [response.json::<Vec<UploadResult>>()?], each element read as an
    untagged [UploadResult]. *)
Definition blocking_upload_outcome (resp : Response) : Result (list UploadResult) :=
  match resp with
  | SendError => Err (ReqwestError SendFailed)
  | NotJson => Err (ReqwestError DecodeFailed)
  | Json (VArray l) =>
      match collect_opt (List.map de_upload_result l) with
      | Some r => Ok r
      | None => Err (ReqwestError DecodeFailed)
      end
  | Json _ => Err (ReqwestError DecodeFailed)
  end.

(** ** More on the converter *)

(** The [children] field of a converted node. *)
Definition node_children (o : option Node) : option (list Node) :=
  match o with Some (NodeElement _ _ c) => c | _ => None end.

(** The strings of the [Text] nodes of a converted tree, in document order. *)
Fixpoint node_texts (n : Node) : list string :=
  match n with
  | Text s => [s]
  | NodeElement _ _ None => []
  | NodeElement _ _ (Some l) => List.flat_map node_texts l
  end.

(** The contents of the text nodes of a libxml tree, in document order. *)
Fixpoint xml_texts (x : XmlNode) : list string :=
  match x with
  | mkXmlNode ty _ content _ kids =>
      match ty with Some TextNode => [content] | _ => [] end
      ++ List.flat_map xml_texts kids
  end.

(** A libxml tree made of element nodes and childless text nodes only. *)
Fixpoint xml_pure (x : XmlNode) : bool :=
  match x with
  | mkXmlNode (Some TextNode) _ _ _ [] => true
  | mkXmlNode (Some ElementNode) _ _ _ kids => forallb xml_pure kids
  | _ => false
  end.

(** ** Facts about the HashMap model *)

Definition ins_entry {A} (m : gmap string A) (kv : string * A) : gmap string A :=
  <[kv.1 := kv.2]> m.

Lemma bucket_insert_perm rs kv l : bucket_insert rs kv l ≡ₚ kv :: l.
Proof.
  induction l as [|kv' l IH]; simpl; [done|].
  destruct (Nat.ltb _ _); [done|].
  rewrite IH. by constructor.
Qed.

Lemma foldl_bucket_insert_perm rs l acc :
  foldl (fun acc kv => bucket_insert rs kv acc) acc l ≡ₚ acc ++ l.
Proof.
  revert acc. induction l as [|kv l IH]; intros acc; simpl.
  - by rewrite app_nil_r.
  - rewrite IH, bucket_insert_perm. simpl. apply Permutation_middle.
Qed.

Lemma hm_iter_perm rs m : hm_iter rs m ≡ₚ map_to_list m.
Proof. unfold hm_iter. by rewrite foldl_bucket_insert_perm. Qed.

Lemma hm_iter_nodup rs m : NoDup (hm_iter rs m).*1.
Proof. rewrite hm_iter_perm. apply NoDup_fst_map_to_list. Qed.

Lemma foldl_ins_entry {A} (l : list (string * A)) (m : gmap string A) :
  NoDup l.*1 -> foldl ins_entry m l = list_to_map l ∪ m.
Proof.
  revert m. induction l as [|[k v] l IH]; intros m Hnd; simpl.
  - by rewrite (left_id_L ∅ (∪)).
  - apply NoDup_cons in Hnd as [Hk Hnd]. rewrite IH by done.
    unfold ins_entry; simpl.
    rewrite <- insert_union_r by (by apply not_elem_of_list_to_map_1).
    by rewrite insert_union_l.
Qed.

Lemma list_to_map_hm_iter rs m : list_to_map (hm_iter rs m) = m.
Proof.
  rewrite (list_to_map_proper _ (map_to_list m)).
  - apply list_to_map_to_list.
  - apply hm_iter_nodup.
  - apply hm_iter_perm.
Qed.

Lemma hm_iter_singleton rs k (x : option string) : hm_iter rs {[k := x]} = [(k, x)].
Proof. unfold hm_iter. by rewrite map_to_list_singleton. Qed.

(** ** Facts about deserialization *)

Lemma de_map_entries_ser (l : list (string * option string)) m :
  de_map_entries m (List.map (fun kv => (kv.1, ser_opt_string kv.2)) l) = Some (foldl ins_entry m l).
Proof.
  revert m. induction l as [|[k [v|]] l IH]; intros m; simpl; auto.
Qed.

Lemma de_attrs_ser rs m :
  de_attrs (JObject (List.map (fun kv => (kv.1, ser_opt_string kv.2)) (hm_iter rs m))) = Some (Some m).
Proof.
  simpl. rewrite de_map_entries_ser, foldl_ins_entry by apply hm_iter_nodup.
  by rewrite list_to_map_hm_iter, (right_id_L ∅ (∪)).
Qed.

Lemma collect_opt_de_ser hs pos (l : list Node) i :
  Forall (fun n => forall p, de_node (ser_node hs p n) = Some n) l ->
  collect_opt (List.map de_node (enum_from (fun j c => ser_node hs (pos ++ [j]) c) i l)) = Some l.
Proof.
  intros Hl. revert i. induction Hl as [|n l Hn _ IH]; intros i; simpl; [done|].
  by rewrite Hn, IH.
Qed.

Lemma str_app_assoc (a b c : string) : (a ++ b) ++ c = a ++ b ++ c.
Proof.
  induction a as [|x a IH]; [reflexivity|].
  change (String x ((a ++ b) ++ c) = String x (a ++ b ++ c)). by rewrite IH.
Qed.

(** ** Theorems *)

(** C10: for every [Node] tree, deserializing (untagged, derived) what the
    derived serializer writes gives back the same tree: strings come back as
    [Text], objects as [NodeElement] with equal [attrs] maps and children. *)
Theorem node_serde_roundtrip (hs : Hashers) (pos : list nat) (n : Node) :
  de_node (ser_node hs pos n) = Some n.
Proof.
  revert pos.
  induction n as [s|tag attrs children IH] using Node_ind'; intros pos; [done|].
  destruct attrs as [m|], children as [l|]; cbn -[de_attrs hm_iter collect_opt enum_from].
  - rewrite de_attrs_ser. rewrite (collect_opt_de_ser hs pos l 0 IH). done.
  - rewrite de_attrs_ser. done.
  - rewrite (collect_opt_de_ser hs pos l 0 IH). done.
  - done.
Qed.

(** C7: [<p>Hello, world</p>] gives exactly
    [[{"tag":"p","children":["Hello, world"]}]], with no [attrs] key. *)
Theorem html_to_node_p_hello (hs : Hashers) :
  html_to_node hs (Some doc_p_hello) = Returns (sq "[{'tag':'p','children':['Hello, world']}]").
Proof. reflexivity. Qed.

(** C1 (code defect): for [<div><!-- comment --><span>x</span></div>] the
    comment child makes [collect::<Option<Vec<_>>>] return [None], so the
    div loses all its children, the span included: the output is
    [[{"tag":"div"}]]. *)
Theorem html_to_node_div_comment_drops_children (hs : Hashers) :
  html_to_node hs (Some doc_div_comment) = Returns (sq "[{'tag':'div'}]").
Proof. reflexivity. Qed.

(** C2 (code defect): a comment among the top-level nodes is kept as a
    [None] in the [Vec<Option<Node>>] and written as [null]. *)
Theorem html_to_node_top_comment_null (hs : Hashers) :
  html_to_node hs (Some doc_p_comment_p)
  = Returns (sq "[{'tag':'p','children':['a']},null,{'tag':'p','children':['b']}]").
Proof. reflexivity. Qed.

(** C8: a text node is converted to [Text] of its content, verbatim, and
    [Text] is written as that very string. *)
Theorem text_node_verbatim (hs : Hashers) (pos : list nat) name content props kids :
  html_to_node_inner (mkXmlNode (Some TextNode) name content props kids) = Some (Text content)
  /\ ser_node hs pos (Text content) = JString content.
Proof. split; reflexivity. Qed.

(** C9 (code defect): [get_attributes] gives the value-less attribute the
    string [v] libxml stores for it (its name, for libxml2), and that
    string, not [null], is what [html_to_node] writes:
    [[{"tag":"input","attrs":{"disabled":v}}]]. The absent value is lost
    before lib.rs:474, whose [Some(attrs)] does not match the
    [Option<String>] values of [NodeElement::attrs]. *)
Theorem input_disabled_value_string (hs : Hashers) (v : string) :
  html_to_node hs (Some (doc_input_disabled v))
  = Returns (sq "[{'tag':'input','attrs':{'disabled':" ++ quote v ++ sq "}}]").
Proof.
  unfold html_to_node; cbn -[decide].
  rewrite decide_False by apply insert_non_empty.
  rewrite fmap_insert, fmap_empty, insert_empty, hm_iter_singleton.
  cbn -[quote]. rewrite ?str_app_assoc. reflexivity.
Qed.

(** C3, counterexample: a document whose root element has no element child
    is a document structure, yet [html_to_node] panics on it, and a panic
    is the only failure it has (there is no [ParseError]). *)
Lemma root_without_child_panics :
  get_root_element doc_html_empty <> None
  /\ html_to_node (hs_all rs_href_first) (Some doc_html_empty) = Panics.
Proof. split; [discriminate|reflexivity]. Qed.

(** C3, amended: [html_to_node] has no error result; it panics exactly when
    [parse_string] fails, when the document has no root element, or when
    the root element has no element child, and returns a string otherwise. *)
Theorem html_to_node_panics_iff (hs : Hashers) (parsed : option Document) :
  html_to_node hs parsed = Panics <->
  match parsed with
  | None => True
  | Some d =>
      match get_root_element d with
      | None => True
      | Some root => get_first_element_child root = None
      end
  end.
Proof.
  unfold html_to_node, html_to_node_nodes.
  destruct parsed as [d|]; [|done].
  destruct (get_root_element d) as [root|]; [|done].
  destruct (get_first_element_child root); split; done.
Qed.

(** C4, counterexample: on every result libxml2 can give for the empty
    input, [html_to_node] does not return [[]]. *)
Lemma empty_input_not_empty_array :
  Forall (fun r => html_to_node (hs_all rs_href_first) r <> Returns "[]") parse_empty_results.
Proof. repeat constructor; discriminate. Qed.

(** C4, amended: for the empty input [html_to_node] panics. *)
Theorem empty_input_panics (hs : Hashers) (r : option Document) :
  r ∈ parse_empty_results -> html_to_node hs r = Panics.
Proof.
  intros Hr. unfold parse_empty_results in Hr.
  repeat (apply elem_of_cons in Hr as [->|Hr]; [reflexivity|]).
  by apply elem_of_nil in Hr.
Qed.

Lemma empty_input_panics_witness :
  Some (mkDocument [dtd]) ∈ parse_empty_results
  /\ html_to_node (hs_all rs_href_first) (Some (mkDocument [dtd])) = Panics.
Proof.
  assert (H : Some (mkDocument [dtd]) ∈ parse_empty_results)
    by (unfold parse_empty_results; right; left).
  split; [exact H|]. exact (empty_input_panics (hs_all rs_href_first) _ H).
Defined.

Lemma collect_opt_map_Forall2 {A B} (f : A -> option B) xs l :
  collect_opt (List.map f xs) = Some l -> Forall2 (fun x n => f x = Some n) xs l.
Proof.
  revert l. induction xs as [|x xs IH]; intros l H; simpl in H.
  - injection H as <-. constructor.
  - destruct (f x) as [n|] eqn:Hx; [|discriminate].
    destruct (collect_opt (List.map f xs)) as [l'|] eqn:Hl; [|discriminate].
    injection H as <-. constructor; auto.
Qed.

Lemma hm_iter_nonempty rs (m : gmap string (option string)) :
  m ≠ ∅ -> nonempty (hm_iter rs m) = true.
Proof.
  intros Hm. destruct (hm_iter rs m) eqn:He; [|done].
  exfalso. apply Hm, map_to_list_empty_iff.
  apply Permutation_nil. rewrite <- He. apply hm_iter_perm.
Qed.

Lemma elem_json_ok_element hs pos tag attrs children :
  (match attrs with None => True | Some m => m ≠ ∅ end) ->
  (match children with
   | None => True
   | Some l => l ≠ [] /\ Forall (fun n => forall p, elem_json_ok (ser_node hs p n) = true) l
   end) ->
  elem_json_ok (ser_node hs pos (NodeElement tag attrs children)) = true.
Proof.
  intros Ha Hc.
  assert (Hall : forall l i, Forall (fun n => forall p, elem_json_ok (ser_node hs p n) = true) l ->
            forallb elem_json_ok (enum_from (fun j c => ser_node hs (pos ++ [j]) c) i l) = true).
  { intros l i Hl. revert i. induction Hl as [|n l Hn _ IH]; intros i; [done|].
    simpl. by rewrite Hn, IH. }
  assert (Hl : forall l, l ≠ [] -> Forall (fun n => forall p, elem_json_ok (ser_node hs p n) = true) l ->
            nonempty (enum_from (fun j c => ser_node hs (pos ++ [j]) c) 0 l)
            && forallb elem_json_ok (enum_from (fun j c => ser_node hs (pos ++ [j]) c) 0 l) = true).
  { intros l Hne Hf. apply andb_true_intro; split; [by destruct l|]. by apply Hall. }
  destruct attrs as [m|], children as [l|]; cbn -[enum_from].
  - destruct Hc as [Hne Hf].
    pose proof (hm_iter_nonempty (hs pos) m Ha) as Hm.
    destruct (hm_iter (hs pos) m); [done|]. cbn -[enum_from].
    rewrite Hl by done. done.
  - pose proof (hm_iter_nonempty (hs pos) m Ha) as Hm.
    destruct (hm_iter (hs pos) m); done.
  - destruct Hc as [Hne Hf]. rewrite Hl by done. done.
  - done.
Qed.

Lemma get_attributes_nil ty name content kids :
  get_attributes (mkXmlNode ty name content [] kids) = ∅.
Proof. reflexivity. Qed.

(** C5: a converted element is written with no empty [attrs] object and no
    empty [children] array (a field that would be empty is left out, also
    in every descendant), and with no [attrs] key when it has no
    attributes. *)
Theorem converted_element_omits_empty_fields (hs : Hashers) (pos : list nat) (x : XmlNode) (n : Node) :
  html_to_node_inner x = Some n ->
  elem_json_ok (ser_node hs pos n) = true
  /\ (x_props x = [] -> json_has_key "attrs" (ser_node hs pos n) = false).
Proof.
  revert pos n. induction x as [ty name content props kids IH] using XmlNode_ind'.
  intros pos n H.
  destruct ty as [[]|]; cbn -[get_attributes decide] in H; try discriminate.
  - injection H as <-. split; [apply elem_json_ok_element|].
    + destruct (decide _) as [_|Hne]; [done|].
      intros Hm. apply Hne. by apply fmap_empty_inv in Hm.
    + destruct kids as [|k kids]; [done|].
      destruct (collect_opt _) as [l|] eqn:Hl; [|done].
      apply collect_opt_map_Forall2 in Hl.
      split.
      * intros ->. inversion Hl.
      * clear -IH Hl. induction Hl as [|x' n' xs l' Hx' _ IHl]; [constructor|].
        inversion IH as [|? ? Hx IH']; subst.
        constructor; [intros p; apply (Hx p n' Hx')|]. apply IHl, IH'.
    + simpl. intros ->. rewrite get_attributes_nil.
      destruct (decide _) as [_|Hne]; [|done].
      destruct (match kids with [] => None | _ => _ end); reflexivity.
  - injection H as <-. done.
Qed.

Lemma converted_element_omits_empty_fields_witness :
  html_to_node_inner (elem "p" [] [text "Hello, world"])
    = Some (NodeElement "p" None (Some [Text "Hello, world"]))
  /\ elem_json_ok (ser_node (hs_all rs_href_first) [] (NodeElement "p" None (Some [Text "Hello, world"]))) = true
  /\ (x_props (elem "p" [] [text "Hello, world"]) = [] ->
      json_has_key "attrs" (ser_node (hs_all rs_href_first) [] (NodeElement "p" None (Some [Text "Hello, world"]))) = false).
Proof.
  assert (H : html_to_node_inner (elem "p" [] [text "Hello, world"])
              = Some (NodeElement "p" None (Some [Text "Hello, world"]))) by reflexivity.
  split; [exact H|].
  exact (converted_element_omits_empty_fields (hs_all rs_href_first) [] _ _ H).
Defined.

(** C6, counterexample: in one output, two identical [<a href="x" src="y">]
    elements are written with their [attrs] keys in two orders, since each
    map has its own hasher; the second order is not the source order, and
    two runs (other hashers) write the same tree differently. *)
Lemma attrs_order_depends_on_seed :
  let d := html_body [elem "a" [("href", "x"); ("src", "y")] [];
                      elem "a" [("href", "x"); ("src", "y")] []] in
  html_to_node (hs_first_differs rs_href_first rs_src_first) (Some d)
    = Returns (sq "[{'tag':'a','attrs':{'href':'x','src':'y'}},{'tag':'a','attrs':{'src':'y','href':'x'}}]")
  /\ html_to_node (hs_all rs_href_first) (Some d) <> html_to_node (hs_all rs_src_first) (Some d).
Proof. split; [reflexivity | vm_compute; congruence]. Qed.

Lemma enum_from_same hs1 hs2 pos (l : list Node) i :
  Forall (fun n => forall p, same_upto_attrs_order (ser_node hs1 p n) (ser_node hs2 p n)) l ->
  Forall2 same_upto_attrs_order
    (enum_from (fun j c => ser_node hs1 (pos ++ [j]) c) i l)
    (enum_from (fun j c => ser_node hs2 (pos ++ [j]) c) i l).
Proof.
  intros Hl. revert i. induction Hl as [|n l Hn _ IH]; intros i; simpl; constructor; auto.
Qed.

Lemma attrs_entries_flat rs (m : gmap string (option string)) :
  Forall (fun e => flat_value e.2 = true)
    (List.map (fun kv => (kv.1, ser_opt_string kv.2)) (hm_iter rs m)).
Proof.
  apply List.Forall_forall. intros e He. apply in_map_iff in He as ([k [v|]] & <- & _); done.
Qed.

(** C6, amended: serialization is not deterministic, but only the order of
    the entries inside [attrs] objects varies: whatever the hashers of two
    runs, the same tree is written with the same tags, the same attribute
    names and values, and the same children in the same order. *)
Theorem serializations_differ_only_in_attrs_order (hs1 hs2 : Hashers) (pos : list nat) (n : Node) :
  same_upto_attrs_order (ser_node hs1 pos n) (ser_node hs2 pos n).
Proof.
  revert pos.
  induction n as [s|tag attrs children IH] using Node_ind'; intros pos; [constructor|].
  cbn -[enum_from hm_iter]. apply sa_object.
  constructor; [split; [reflexivity|constructor]|].
  apply Forall2_app.
  - destruct attrs as [m|]; [|constructor].
    constructor; [|constructor]. split; [reflexivity|].
    apply sa_flat_perm; [apply attrs_entries_flat|].
    apply Permutation_map. by rewrite !hm_iter_perm.
  - destruct children as [l|]; [|constructor].
    constructor; [|constructor]. split; [reflexivity|].
    apply sa_array. by apply enum_from_same.
Qed.

(** ** Further properties of the converter *)

Lemma collect_opt_map_iff {A B} (f : A -> option B) xs l :
  collect_opt (List.map f xs) = Some l <-> Forall2 (fun x n => f x = Some n) xs l.
Proof.
  split; [apply collect_opt_map_Forall2|].
  induction 1 as [|x n xs l Hx _ IH]; simpl; [done|]. by rewrite Hx, IH.
Qed.

(** An element keeps a [children] list exactly when it has children and
    every one of them converts; the list then has one entry per child, in
    the same order. *)
Theorem element_children_iff name content props kids (l : list Node) :
  node_children (html_to_node_inner (mkXmlNode (Some ElementNode) name content props kids)) = Some l
  <-> kids ≠ [] /\ Forall2 (fun k n => html_to_node_inner k = Some n) kids l.
Proof.
  cbn -[get_attributes decide collect_opt].
  destruct kids as [|k kids].
  - split; [discriminate|]. intros [[] _]. done.
  - rewrite collect_opt_map_iff. split; [intros H; split; [done|exact H]|]. by intros [_ H].
Qed.

Lemma element_children_iff_witness :
  let kids := [text "a"; elem "b" [] []] in
  kids ≠ [] /\ Forall2 (fun k n => html_to_node_inner k = Some n) kids
                 [Text "a"; NodeElement "b" None None]
  /\ node_children (html_to_node_inner (mkXmlNode (Some ElementNode) "p" EmptyString [] kids))
     = Some [Text "a"; NodeElement "b" None None].
Proof.
  cbv zeta.
  assert (H : [text "a"; elem "b" [] []] ≠ []
              /\ Forall2 (fun k n => html_to_node_inner k = Some n) [text "a"; elem "b" [] []]
                   [Text "a"; NodeElement "b" None None])
    by (split; [discriminate|repeat constructor]).
  split; [exact (proj1 H)|]. split; [exact (proj2 H)|].
  exact (proj2 (element_children_iff "p" EmptyString [] _ _) H).
Defined.

(** The conversion invents no text and keeps its order: the strings of the
    output's [Text] nodes are a sub-sequence of the input's text contents. *)
Theorem converted_texts_sublist (x : XmlNode) (n : Node) :
  html_to_node_inner x = Some n -> node_texts n `sublist_of` xml_texts x.
Proof.
  revert n. induction x as [ty name content props kids IH] using XmlNode_ind'.
  intros n H. destruct ty as [[]|]; cbn -[get_attributes decide] in H; try discriminate.
  - injection H as <-. simpl.
    destruct kids as [|k kids]; [apply sublist_nil_l|].
    destruct (collect_opt _) as [l|] eqn:Hl; [|apply sublist_nil_l].
    apply collect_opt_map_Forall2 in Hl.
    change (List.flat_map node_texts l `sublist_of` List.flat_map xml_texts (k :: kids)).
    revert IH Hl. generalize (k :: kids) as ks. intros ks IH Hl.
    clear -IH Hl. induction Hl as [|k' n' ks l' Hk _ IHl]; simpl; [apply sublist_nil_l|].
    inversion IH as [|? ? Hx IH']; subst.
    apply sublist_app; [by apply Hx|by apply IHl].
  - injection H as <-. simpl. apply sublist_skip, sublist_nil_l.
Qed.

Lemma converted_texts_sublist_witness :
  html_to_node_inner (elem "p" [] [text "a"]) = Some (NodeElement "p" None (Some [Text "a"]))
  /\ node_texts (NodeElement "p" None (Some [Text "a"])) `sublist_of` xml_texts (elem "p" [] [text "a"]).
Proof.
  assert (H : html_to_node_inner (elem "p" [] [text "a"])
              = Some (NodeElement "p" None (Some [Text "a"]))) by reflexivity.
  split; [exact H|]. exact (converted_texts_sublist _ _ H).
Defined.

(** On a tree of elements and text nodes only, nothing is lost: the
    conversion succeeds and its texts are all the input's texts, in order. *)
Theorem pure_tree_texts_kept (x : XmlNode) :
  xml_pure x = true -> exists n, html_to_node_inner x = Some n /\ node_texts n = xml_texts x.
Proof.
  induction x as [ty name content props kids IH] using XmlNode_ind'. intros Hp.
  destruct ty as [[]|]; try discriminate.
  - simpl in Hp. rewrite forallb_forall in Hp.
    assert (Hall : exists l, Forall2 (fun k n => html_to_node_inner k = Some n) kids l
                             /\ List.flat_map node_texts l = List.flat_map xml_texts kids).
    { clear -IH Hp. induction IH as [|k kids Hk _ IHk]; [by exists []|].
      destruct (Hk (Hp k (or_introl eq_refl))) as (n & Hn & Ht).
      destruct IHk as (l & Hl & Hlt); [intros y Hy; apply Hp; by right|].
      exists (n :: l). split; [by constructor|]. simpl. by rewrite Ht, Hlt. }
    destruct Hall as (l & Hl & Hlt).
    eexists. cbn -[get_attributes decide collect_opt]. split; [reflexivity|].
    destruct kids as [|k kids]; [by inversion Hl|].
    apply collect_opt_map_iff in Hl. rewrite Hl. exact Hlt.
  - destruct kids; [|discriminate]. eexists. split; [reflexivity|done].
Qed.

Lemma pure_tree_texts_kept_witness :
  xml_pure (elem "p" [] [text "a"; elem "b" [] [text "c"]]) = true
  /\ exists n, html_to_node_inner (elem "p" [] [text "a"; elem "b" [] [text "c"]]) = Some n
               /\ node_texts n = xml_texts (elem "p" [] [text "a"; elem "b" [] [text "c"]]).
Proof.
  assert (H : xml_pure (elem "p" [] [text "a"; elem "b" [] [text "c"]]) = true) by reflexivity.
  split; [exact H|]. exact (pure_tree_texts_kept _ H).
Defined.

(** ** Properties of the HTTP API glue *)

(** [get_views] sends [time[0..4]] under "year", "month", "day" and
    "hour" in that order; a shorter [time] leaves the later names out, a
    longer one is cut, and no other key is sent. *)
Theorem get_views_params_lookup (time : list Z) :
  get_views_params time !! "year" = time !! 0 /\
  get_views_params time !! "month" = time !! 1 /\
  get_views_params time !! "day" = time !! 2 /\
  get_views_params time !! "hour" = time !! 3 /\
  (forall k, k ∉ ["year"; "month"; "day"; "hour"] -> get_views_params time !! k = None).
Proof.
  destruct time as [|a [|b [|c [|d rest]]]]; unfold get_views_params;
    cbn [zip zip_with foldl fst snd];
    (split; [by simplify_map_eq|]); (split; [by simplify_map_eq|]);
    (split; [by simplify_map_eq|]); (split; [by simplify_map_eq|]);
    intros k Hk; rewrite ?list_elem_of_cons in Hk;
    rewrite ?lookup_insert_ne by (intros <-; apply Hk, list_elem_of_In; simpl; tauto); reflexivity.
Qed.

(** An API answer carrying a decodable [result] exactly once is a
    success whatever its "ok" and "error" fields say: the untagged
    [ApiResult] tries the [Ok] variant first. *)
Theorem api_call_result_wins {T} (de : value -> option T) fs r t :
  get_field "result" fs = Some (Some r) -> de r = Some t ->
  api_call de (Json (VObject fs)) = Ok t.
Proof.
  intros Hr Ht. unfold api_call, de_api_result. rewrite Hr. simpl. rewrite Ht. reflexivity.
Qed.

Lemma api_call_result_wins_witness :
  get_field "result" [("ok", VBool false); ("error", VString "e"); ("result", VString "r")]
    = Some (Some (VString "r")) /\ de_string (VString "r") = Some "r" /\
  api_call de_string (Json (VObject [("ok", VBool false); ("error", VString "e"); ("result", VString "r")]))
    = Ok "r".
Proof.
  split; [reflexivity|]. split; [reflexivity|].
  apply (api_call_result_wins de_string _ (VString "r")); reflexivity.
Defined.

(** An answer without [result] but with a boolean "ok" and a string
    "error" is an [ApiError] carrying that text, even when "ok" is true. *)
Theorem api_call_error_field {T} (de : value -> option T) fs b e :
  get_field "result" fs = Some None ->
  get_field "ok" fs = Some (Some (VBool b)) ->
  get_field "error" fs = Some (Some (VString e)) ->
  api_call de (Json (VObject fs)) = Err (ApiError e).
Proof.
  intros Hr Hok He. unfold api_call, de_api_result. rewrite Hr. simpl.
  rewrite Hok, He. reflexivity.
Qed.

Lemma api_call_error_field_witness :
  let fs := [("ok", VBool true); ("error", VString "ACCESS_TOKEN_INVALID")] in
  get_field "result" fs = Some None /\ get_field "ok" fs = Some (Some (VBool true)) /\
  get_field "error" fs = Some (Some (VString "ACCESS_TOKEN_INVALID")) /\
  api_call de_account (Json (VObject fs)) = Err (ApiError "ACCESS_TOKEN_INVALID").
Proof.
  split; [reflexivity|]. split; [reflexivity|]. split; [reflexivity|].
  apply (api_call_error_field de_account _ true); reflexivity.
Defined.

(** An object answer with neither "result" nor "error" is a decoding
    error of reqwest, not an [ApiError]. *)
Theorem api_call_neither_field {T} (de : value -> option T) fs :
  get_field "result" fs = Some None -> get_field "error" fs = Some None ->
  api_call de (Json (VObject fs)) = Err (ReqwestError DecodeFailed).
Proof.
  intros Hr He. unfold api_call, de_api_result. rewrite Hr. simpl.
  destruct (de_req_field de_bool (get_field "ok" fs)); simpl; [rewrite He|]; reflexivity.
Qed.

Lemma api_call_neither_field_witness :
  get_field "result" [("ok", VBool true)] = Some None /\
  get_field "error" [("ok", VBool true)] = Some None /\
  api_call de_account (Json (VObject [("ok", VBool true)])) = Err (ReqwestError DecodeFailed).
Proof.
  split; [reflexivity|]. split; [reflexivity|].
  apply api_call_neither_field; reflexivity.
Defined.

Lemma collect_opt_image_infos (srcs : list string) :
  collect_opt (List.map de_image_info (List.map (fun s => VObject [("src", VString s)]) srcs))
    = Some (List.map mkImageInfo srcs).
Proof. induction srcs as [|s srcs IH]; simpl; [reflexivity|]. rewrite IH. reflexivity. Qed.

(** An upload answer that is an array of [{"src": s}] objects gives the
    [ImageInfo]s in the same order. *)
Theorem upload_sources_ok (serde_msg raw : string) (srcs : list string) :
  upload_outcome serde_msg raw
    (Some (VArray (List.map (fun s => VObject [("src", VString s)]) srcs)))
  = Ok (List.map mkImageInfo srcs).
Proof.
  unfold upload_outcome. simpl. unfold de_upload_result.
  rewrite collect_opt_image_infos.
  destruct srcs as [|s [|s' srcs]]; reflexivity.
Qed.

(** An upload answer that is an object with a string "error" field is
    an [ApiError] carrying that text. *)
Theorem upload_error_field (serde_msg raw : string) fs e :
  get_field "error" fs = Some (Some (VString e)) ->
  upload_outcome serde_msg raw (Some (VObject fs)) = Err (ApiError e).
Proof. intros He. unfold upload_outcome. simpl. unfold de_upload_result. rewrite He. reflexivity. Qed.

Lemma upload_error_field_witness :
  get_field "error" [("error", VString "File type invalid")] = Some (Some (VString "File type invalid")) /\
  upload_outcome "m" "r" (Some (VObject [("error", VString "File type invalid")]))
    = Err (ApiError "File type invalid").
Proof. split; [reflexivity|]. apply upload_error_field. reflexivity. Defined.

(** [create_account] always sends [short_name], and sends
    [author_name] and [author_url] exactly when they are given; nothing
    else. *)
Theorem create_account_params_lookup short_name author_name author_url :
  create_account_params short_name author_name author_url !! "short_name" = Some short_name /\
  create_account_params short_name author_name author_url !! "author_name" = author_name /\
  create_account_params short_name author_name author_url !! "author_url" = author_url /\
  (forall k, k ∉ ["short_name"; "author_name"; "author_url"] ->
   create_account_params short_name author_name author_url !! k = None).
Proof.
  destruct author_name, author_url; unfold create_account_params;
    (split; [by simplify_map_eq|]); (split; [by simplify_map_eq|]);
    (split; [by simplify_map_eq|]);
    intros k Hk;
    rewrite ?lookup_insert_ne by (intros <-; apply Hk, list_elem_of_In; simpl; tauto); reflexivity.
Qed.

(** [edit_account_info] followed by [create] gives back the same
    [Telegraph], without any request. *)
Theorem create_edit_account_info (net : Network) (t : Telegraph) :
  builder_create net (edit_account_info t) = Finished (Ok t).
Proof. destruct t. reflexivity. Qed.

(** Without a token, an error answer of [createAccount] is returned by
    [create] as an [ApiError]. *)
Theorem create_account_api_error (net : Network) (b : AccountBuilder) e :
  b_access_token b = None ->
  net (mkRequest "https://api.telegra.ph/createAccount"
         (QMap (create_account_params (b_short_name b) (b_author_name b) (b_author_url b))))
    = Json (VObject [("ok", VBool false); ("error", VString e)]) ->
  builder_create net b = Finished (Err (ApiError e)).
Proof.
  intros Ht Hn. unfold builder_create, create_account. rewrite Ht, Hn. reflexivity.
Qed.

Lemma create_account_api_error_witness :
  let net := fun _ : Request => Json (VObject [("ok", VBool false); ("error", VString "SHORT_NAME_REQUIRED")]) in
  b_access_token (builder_new EmptyString) = None /\
  builder_create net (builder_new EmptyString) = Finished (Err (ApiError "SHORT_NAME_REQUIRED")).
Proof.
  split; [reflexivity|]. apply create_account_api_error; reflexivity.
Defined.

(** Without a token, a successful [createAccount] answer whose account
    has no [access_token] makes [create] panic. *)
Theorem create_account_without_token_panics (net : Network) (b : AccountBuilder) fs acc :
  b_access_token b = None ->
  net (mkRequest "https://api.telegra.ph/createAccount"
         (QMap (create_account_params (b_short_name b) (b_author_name b) (b_author_url b))))
    = Json (VObject [("ok", VBool true); ("result", VObject fs)]) ->
  de_account (VObject fs) = Some acc -> acc_access_token acc = None ->
  builder_create net b = Panicked.
Proof.
  intros Ht Hn Hd Ha. unfold builder_create, create_account. rewrite Ht, Hn.
  unfold api_call, de_api_result. cbn -[de_account]. rewrite Hd. simpl. rewrite Ha. reflexivity.
Qed.

Lemma create_account_without_token_panics_witness :
  let fs := [("short_name", VString "Sandbox"); ("author_name", VString "Anonymous")] in
  let net := fun _ : Request => Json (VObject [("ok", VBool true); ("result", VObject fs)]) in
  b_access_token (builder_new "Sandbox") = None /\
  de_account (VObject fs) = Some (mkAccount (Some "Sandbox") (Some "Anonymous") None None None None) /\
  builder_create net (builder_new "Sandbox") = Panicked.
Proof.
  split; [reflexivity|]. split; [reflexivity|].
  eapply create_account_without_token_panics; reflexivity.
Defined.

(** The blocking [upload] cannot read the answer the async [upload]
    accepts: a non-empty array of [{"src": s}] objects is a decoding error,
    since no element is an [Error] object or an array of images. *)
Theorem blocking_upload_rejects_sources (srcs : list string) :
  srcs <> [] ->
  blocking_upload_outcome (Json (VArray (List.map (fun s => VObject [("src", VString s)]) srcs)))
    = Err (ReqwestError DecodeFailed).
Proof. destruct srcs as [|s srcs]; [congruence|]. intros _. reflexivity. Qed.

Lemma blocking_upload_rejects_sources_witness :
  not (["/file/6a5b15e7eb4d7329ca7af.jpg"] = []) /\
  blocking_upload_outcome (Json (VArray [VObject [("src", VString "/file/6a5b15e7eb4d7329ca7af.jpg")]]))
    = Err (ReqwestError DecodeFailed).
Proof.
  split; [discriminate|].
  apply (blocking_upload_rejects_sources ["/file/6a5b15e7eb4d7329ca7af.jpg"]). discriminate.
Defined.
